(** * vector_lib: value types, euler-order codec and quaternion contract

    A shallow embedding of [vector/types.h] and of the quaternion interface
    declared in [vector/quaternion.h].

    - [Layout]: the C object layout of [matrix_t], computed from the member
      declarations of the union, and the four aliased access paths.
    - [Euler]: the [VECTOR_GETEULERORDER] macro and the enumeration
      [euler_angles_order_t].
    - [Quaternion]: the functions declared in [quaternion.h], written once
      over the lane arithmetic of a backend.
    - [Binary32]: the lanes as IEEE 754 binary32 bit patterns.
    - [RealLanes]: the lanes as real numbers, the arithmetic the backends
      approximate. *)

From Stdlib Require Import ZArith List Lia Bool String Ascii.
From Stdlib Require Import Init.Byte.
From Stdlib Require Import Floats.SpecFloat.
From Stdlib Require Import Reals Lra Psatz.
Import ListNotations.

(* ================================================================== *)
(** * Object layout of [matrix_t] *)
(* ================================================================== *)

Module Layout.

Local Open Scope nat_scope.
Local Open Scope string_scope.

(** The C types that occur in the declarations of [types.h]. [Taligned a t]
    is [t] declared with an alignment of [a] bytes ([VECTOR_ALIGN],
    [VECTOR_ALIGNED_STRUCT]). *)
#[local] Set Warnings "-register-all".
Inductive ctype : Type :=
| Tfloat32 : ctype
| Tarray : ctype -> nat -> ctype
| Tstruct : list (string * ctype) -> ctype
| Tunion : list (string * ctype) -> ctype
| Taligned : nat -> ctype -> ctype.

(** Round [n] up to the next multiple of [a]. *)
Definition align_up (n a : nat) : nat := ((n + a - 1) / a) * a.

Fixpoint alignof (t : ctype) : nat :=
  match t with
  | Tfloat32 => 4
  | Tarray t' _ => alignof t'
  | Tstruct fs =>
      (fix go (l : list (string * ctype)) : nat :=
         match l with
         | [] => 1
         | (_, ft) :: l' => Nat.max (alignof ft) (go l')
         end) fs
  | Tunion fs =>
      (fix go (l : list (string * ctype)) : nat :=
         match l with
         | [] => 1
         | (_, ft) :: l' => Nat.max (alignof ft) (go l')
         end) fs
  | Taligned a t' => Nat.max a (alignof t')
  end.

Fixpoint sizeof (t : ctype) : nat :=
  match t with
  | Tfloat32 => 4
  | Tarray t' n => n * sizeof t'
  | Tstruct fs =>
      align_up
        ((fix go (off : nat) (l : list (string * ctype)) : nat :=
            match l with
            | [] => off
            | (_, ft) :: l' => go (align_up off (alignof ft) + sizeof ft) l'
            end) 0 fs)
        (alignof t)
  | Tunion fs =>
      align_up
        ((fix go (l : list (string * ctype)) : nat :=
            match l with
            | [] => 0
            | (_, ft) :: l' => Nat.max (sizeof ft) (go l')
            end) fs)
        (alignof t)
  | Taligned a t' => align_up (sizeof t') (Nat.max a (alignof t'))
  end.

(** Offset and type of member [name] in a struct whose members are laid out
    in declaration order, each at the next offset that satisfies its
    alignment. *)
Fixpoint struct_member (off : nat) (fs : list (string * ctype)) (name : string)
  : option (nat * ctype) :=
  match fs with
  | [] => None
  | (n, ft) :: fs' =>
      let o := align_up off (alignof ft) in
      if String.eqb n name then Some (o, ft)
      else struct_member (o + sizeof ft) fs' name
  end.

(** Every member of a union starts at offset 0. *)
Fixpoint union_member (fs : list (string * ctype)) (name : string)
  : option (nat * ctype) :=
  match fs with
  | [] => None
  | (n, ft) :: fs' =>
      if String.eqb n name then Some (0, ft) else union_member fs' name
  end.

(** The type under its alignment declarations. *)
Fixpoint unaligned (t : ctype) : ctype :=
  match t with
  | Taligned _ t' => unaligned t'
  | _ => t
  end.

(** One step of an lvalue expression: [.name] or [[i]]. *)
Inductive step : Type :=
| Field : string -> step
| Index : nat -> step.

(** Byte offset and type designated by an access path; [None] when a member
    does not exist or an index is outside its array. *)
Fixpoint resolve (t : ctype) (off : nat) (p : list step) : option (nat * ctype) :=
  match p with
  | [] => Some (off, unaligned t)
  | Field name :: p' =>
      match unaligned t with
      | Tstruct fs =>
          match struct_member 0 fs name with
          | Some (o, ft) => resolve ft (off + o) p'
          | None => None
          end
      | Tunion fs =>
          match union_member fs name with
          | Some (o, ft) => resolve ft (off + o) p'
          | None => None
          end
      | _ => None
      end
  | Index i :: p' =>
      match unaligned t with
      | Tarray t' n =>
          if Nat.ltb i n then resolve t' (off + i * sizeof t') p' else None
      | _ => None
      end
  end.

(** ** The declarations of [types.h] *)

(** [VECTOR_ALIGN] and [VECTOR_ALIGNED_STRUCT]: an alignment of 16 bytes
    when an SSE backend is selected, nothing in the portable one. *)
Definition VECTOR_ALIGN (simd : bool) (t : ctype) : ctype :=
  if simd then Taligned 16 t else t.

(** [vector_t]: the portable record [{x, y, z, w}], or, when an SSE backend
    is selected, the 16-byte aligned four-lane register type [__m128]. *)
Definition vector_t (simd : bool) : ctype :=
  if simd then Taligned 16 (Tarray Tfloat32 4)
  else Tstruct [("x", Tfloat32); ("y", Tfloat32); ("z", Tfloat32); ("w", Tfloat32)].

Definition matrix_component_t (simd : bool) : ctype :=
  VECTOR_ALIGN simd
    (Tstruct
       [("m00", Tfloat32); ("m01", Tfloat32); ("m02", Tfloat32); ("m03", Tfloat32);
        ("m10", Tfloat32); ("m11", Tfloat32); ("m12", Tfloat32); ("m13", Tfloat32);
        ("m20", Tfloat32); ("m21", Tfloat32); ("m22", Tfloat32); ("m23", Tfloat32);
        ("m30", Tfloat32); ("m31", Tfloat32); ("m32", Tfloat32); ("m33", Tfloat32)]).

Definition matrix_t (simd : bool) : ctype :=
  Tunion
    [("comp", matrix_component_t simd);
     ("arr", VECTOR_ALIGN simd (Tarray Tfloat32 16));
     ("frow", VECTOR_ALIGN simd (Tarray (Tarray Tfloat32 4) 4));
     ("row", Tarray (vector_t simd) 4)].

Definition transform_t (simd : bool) : ctype :=
  VECTOR_ALIGN simd
    (Tstruct [("rotation", vector_t simd); ("translation", vector_t simd)]).

(** ** The four views of one matrix element *)

Inductive view : Type := ViaComp | ViaArr | ViaFrow | ViaRow.

Definition digit (n : nat) : string :=
  String (ascii_of_nat (48 + n)) EmptyString.

(** The member name [mRC] of the component view. *)
Definition comp_name (r c : nat) : string := "m" ++ digit r ++ digit c.

(** Lane [c] of a row vector: a named field of the record, or the lane index
    of the register type. *)
Definition lane (simd : bool) (c : nat) : step :=
  if simd then Index c
  else Field (nth c ["x"; "y"; "z"; "w"] "").

Definition view_path (simd : bool) (v : view) (r c : nat) : list step :=
  match v with
  | ViaComp => [Field "comp"; Field (comp_name r c)]
  | ViaArr => [Field "arr"; Index (4 * r + c)]
  | ViaFrow => [Field "frow"; Index r; Index c]
  | ViaRow => [Field "row"; Index r; lane simd c]
  end.

(** ** Object representation *)

(** The bytes of an object; a [float32_t] value is four of them. *)
Definition memory := list byte.

Definition load (m : memory) (off n : nat) : memory := firstn n (skipn off m).

Definition store (m : memory) (off : nat) (val : memory) : memory :=
  (firstn off m ++ val ++ skipn (off + List.length val) m)%list.

(** Read the [float32_t] designated by a view of a matrix object. *)
Definition read_view (simd : bool) (m : memory) (v : view) (r c : nat)
  : option memory :=
  match resolve (matrix_t simd) 0 (view_path simd v r c) with
  | Some (off, Tfloat32) => Some (load m off 4)
  | _ => None
  end.

(** Write a [float32_t] through a view of a matrix object. *)
Definition write_view (simd : bool) (m : memory) (v : view) (r c : nat)
    (val : memory) : option memory :=
  match resolve (matrix_t simd) 0 (view_path simd v r c) with
  | Some (off, Tfloat32) => Some (store m off val)
  | _ => None
  end.

(** A zero-filled matrix object and the bytes of [1.0f], least significant
    byte first. *)
Definition sample_matrix : memory := repeat x00 64.
Definition sample_float : memory := [x00; x00; x80; x3f].

End Layout.

(* ================================================================== *)
(** * Euler-order descriptors *)
(* ================================================================== *)

Module Euler.

Local Open Scope Z_scope.

(** [#define VECTOR_GETEULERORDER(i, p, r, f) ((((((i << 1) + p) << 1) + r) << 1) + f)] *)
Definition VECTOR_GETEULERORDER (i p r f : Z) : Z :=
  Z.shiftl (Z.shiftl (Z.shiftl i 1 + p) 1 + r) 1 + f.

Definition VECTOR_EULER_STATICFRAME : Z := 0.
Definition VECTOR_EULER_ROTATEFRAME : Z := 1.
Definition VECTOR_EULER_NOREPEAT : Z := 0.
Definition VECTOR_EULER_REPEAT : Z := 1.
Definition VECTOR_EULER_EVEN : Z := 0.
Definition VECTOR_EULER_ODD : Z := 1.

(** The enumerators of [euler_angles_order_t], in declaration order. *)
Inductive euler_angles_order_t : Type :=
| EULER_DEFAULTORDER
| EULER_XYZs | EULER_XYXs | EULER_XZYs | EULER_XZXs
| EULER_YZXs | EULER_YZYs | EULER_YXZs | EULER_YXYs
| EULER_ZXYs | EULER_ZXZs | EULER_ZYXs | EULER_ZYZs
| EULER_ZYXr | EULER_XYXr | EULER_YZXr | EULER_XZXr
| EULER_XZYr | EULER_YZYr | EULER_ZXYr | EULER_YXYr
| EULER_YXZr | EULER_ZXZr | EULER_XYZr | EULER_ZYZr.

(** The macro arguments each enumerator is defined with. *)
Definition order_args (o : euler_angles_order_t) : Z * Z * Z * Z :=
  match o with
  | EULER_DEFAULTORDER => (0, VECTOR_EULER_EVEN, VECTOR_EULER_NOREPEAT, VECTOR_EULER_STATICFRAME)
  | EULER_XYZs => (0, VECTOR_EULER_EVEN, VECTOR_EULER_NOREPEAT, VECTOR_EULER_STATICFRAME)
  | EULER_XYXs => (0, VECTOR_EULER_EVEN, VECTOR_EULER_REPEAT, VECTOR_EULER_STATICFRAME)
  | EULER_XZYs => (0, VECTOR_EULER_ODD, VECTOR_EULER_NOREPEAT, VECTOR_EULER_STATICFRAME)
  | EULER_XZXs => (0, VECTOR_EULER_ODD, VECTOR_EULER_REPEAT, VECTOR_EULER_STATICFRAME)
  | EULER_YZXs => (1, VECTOR_EULER_EVEN, VECTOR_EULER_NOREPEAT, VECTOR_EULER_STATICFRAME)
  | EULER_YZYs => (1, VECTOR_EULER_EVEN, VECTOR_EULER_REPEAT, VECTOR_EULER_STATICFRAME)
  | EULER_YXZs => (1, VECTOR_EULER_ODD, VECTOR_EULER_NOREPEAT, VECTOR_EULER_STATICFRAME)
  | EULER_YXYs => (1, VECTOR_EULER_ODD, VECTOR_EULER_REPEAT, VECTOR_EULER_STATICFRAME)
  | EULER_ZXYs => (2, VECTOR_EULER_EVEN, VECTOR_EULER_NOREPEAT, VECTOR_EULER_STATICFRAME)
  | EULER_ZXZs => (2, VECTOR_EULER_EVEN, VECTOR_EULER_REPEAT, VECTOR_EULER_STATICFRAME)
  | EULER_ZYXs => (2, VECTOR_EULER_ODD, VECTOR_EULER_NOREPEAT, VECTOR_EULER_STATICFRAME)
  | EULER_ZYZs => (2, VECTOR_EULER_ODD, VECTOR_EULER_REPEAT, VECTOR_EULER_STATICFRAME)
  | EULER_ZYXr => (0, VECTOR_EULER_EVEN, VECTOR_EULER_NOREPEAT, VECTOR_EULER_ROTATEFRAME)
  | EULER_XYXr => (0, VECTOR_EULER_EVEN, VECTOR_EULER_REPEAT, VECTOR_EULER_ROTATEFRAME)
  | EULER_YZXr => (0, VECTOR_EULER_ODD, VECTOR_EULER_NOREPEAT, VECTOR_EULER_ROTATEFRAME)
  | EULER_XZXr => (0, VECTOR_EULER_ODD, VECTOR_EULER_REPEAT, VECTOR_EULER_ROTATEFRAME)
  | EULER_XZYr => (1, VECTOR_EULER_EVEN, VECTOR_EULER_NOREPEAT, VECTOR_EULER_ROTATEFRAME)
  | EULER_YZYr => (1, VECTOR_EULER_EVEN, VECTOR_EULER_REPEAT, VECTOR_EULER_ROTATEFRAME)
  | EULER_ZXYr => (1, VECTOR_EULER_ODD, VECTOR_EULER_NOREPEAT, VECTOR_EULER_ROTATEFRAME)
  | EULER_YXYr => (1, VECTOR_EULER_ODD, VECTOR_EULER_REPEAT, VECTOR_EULER_ROTATEFRAME)
  | EULER_YXZr => (2, VECTOR_EULER_EVEN, VECTOR_EULER_NOREPEAT, VECTOR_EULER_ROTATEFRAME)
  | EULER_ZXZr => (2, VECTOR_EULER_EVEN, VECTOR_EULER_REPEAT, VECTOR_EULER_ROTATEFRAME)
  | EULER_XYZr => (2, VECTOR_EULER_ODD, VECTOR_EULER_NOREPEAT, VECTOR_EULER_ROTATEFRAME)
  | EULER_ZYZr => (2, VECTOR_EULER_ODD, VECTOR_EULER_REPEAT, VECTOR_EULER_ROTATEFRAME)
  end.

(** The integer value of an enumerator. *)
Definition order_value (o : euler_angles_order_t) : Z :=
  let '(i, p, r, f) := order_args o in VECTOR_GETEULERORDER i p r f.

(** The 24 named orders [EULER_XYZs] .. [EULER_ZYZr], in declaration order
    ([EULER_DEFAULTORDER] is a further name, declared before them). *)
Definition named_orders : list euler_angles_order_t :=
  [EULER_XYZs; EULER_XYXs; EULER_XZYs; EULER_XZXs;
   EULER_YZXs; EULER_YZYs; EULER_YXZs; EULER_YXYs;
   EULER_ZXYs; EULER_ZXZs; EULER_ZYXs; EULER_ZYZs;
   EULER_ZYXr; EULER_XYXr; EULER_YZXr; EULER_XZXr;
   EULER_XZYr; EULER_YZYr; EULER_ZXYr; EULER_YXYr;
   EULER_YXZr; EULER_ZXZr; EULER_XYZr; EULER_ZYZr].

(** The formula of the specification, with bitwise or. *)
Definition spec_order (axis parity repeat frame : Z) : Z :=
  Z.lor (Z.shiftl (Z.lor (Z.shiftl (Z.lor (Z.shiftl axis 1) parity) 1) repeat) 1) frame.

(** Modelled from the spec: the decoder of the euler order codec is not in
    [types.h]; the specification asks for the unpacking of the descriptor into
    (initial axis, parity, repetition, frame), the inverse of the nested
    shifts: one bit each for frame, repetition and parity, from the least
    significant bit up, and the remaining bits for the axis. *)
Definition decode_order (order : Z) : Z * Z * Z * Z :=
  (Z.shiftr order 3,
   Z.land (Z.shiftr order 2) 1,
   Z.land (Z.shiftr order 1) 1,
   Z.land order 1).

(** The domain of the encoding. *)
Definition in_range (i p r f : Z) : Prop :=
  0 <= i <= 2 /\ 0 <= p <= 1 /\ 0 <= r <= 1 /\ 0 <= f <= 1.

End Euler.

(* ================================================================== *)
(** * Quaternion algebra *)
(* ================================================================== *)

Module Quaternion.

(** The portable [vector_t]: four lanes x, y, z, w. [quaternion_t] is the
    same type; x, y, z are the imaginary part and w the real part. *)
Record vector_t (F : Type) : Type := vector { x : F; y : F; z : F; w : F }.
Arguments vector {F} _ _ _ _.
Arguments x {F} _.
Arguments y {F} _.
Arguments z {F} _.
Arguments w {F} _.

(** [typedef vector_t quaternion_t;] *)
Abbreviation quaternion_t := vector_t (only parsing).

(** The scalar arithmetic a backend computes its lanes with. Every backend
    of [quaternion.h] implements the same functions over its own arithmetic;
    the functions below are written once over this interface. *)
Class lane_ops (F : Type) : Type := {
  f_zero : F;
  f_one : F;
  f_two : F;
  f_neg : F -> F;
  f_add : F -> F -> F;
  f_sub : F -> F -> F;
  f_mul : F -> F -> F;
  f_div : F -> F -> F;
  f_sqrt : F -> F;
  f_ltb : F -> F -> bool
}.

(** The functions of the C mathematical library that slerp relies on. *)
Class libm_ops (F : Type) : Type := {
  f_sin : F -> F;
  f_acos : F -> F
}.

Declare Scope lane_scope.
Delimit Scope lane_scope with lane.
Infix "+" := f_add : lane_scope.
Infix "-" := f_sub : lane_scope.
Infix "*" := f_mul : lane_scope.
Infix "/" := f_div : lane_scope.
Notation "- a" := (f_neg a) : lane_scope.

Section Functions.

Context {F : Type} `{lane_ops F}.
Local Open Scope lane_scope.

(** ** The vector primitives the quaternion layer calls into *)

(** Modelled from the spec: [vector_dot] of the sibling vector module (not
    under src/), the four-lane dot product. *)
Definition vector_dot (a b : vector_t F) : F :=
  x a * x b + y a * y b + z a * z b + w a * w b.

(** Modelled from the spec: [vector_length_sqr] of the sibling vector module,
    the sum of the squared components. *)
Definition vector_length_sqr (v : vector_t F) : F := vector_dot v v.

(** Modelled from the spec: [vector_length] of the sibling vector module, the
    square root of the sum of the squared components. *)
Definition vector_length (v : vector_t F) : F := f_sqrt (vector_length_sqr v).

(** Modelled from the spec: the cross product of the x, y, z lanes of the
    sibling vector module; the result is a direction, with w = 0. *)
Definition vector_cross3 (a b : vector_t F) : vector_t F :=
  vector (y a * z b - z a * y b)
         (z a * x b - x a * z b)
         (x a * y b - y a * x b)
         f_zero.

(** ** The functions declared in [quaternion.h] *)

(** Modelled from the spec: the body of [quaternion_zero] is in the backend
    headers, which are not under src/; it returns (0,0,0,0). *)
Definition quaternion_zero : quaternion_t F := vector f_zero f_zero f_zero f_zero.

(** Modelled from the spec: the body of [quaternion_identity] is in the
    backend headers; it returns (0,0,0,1). *)
Definition quaternion_identity : quaternion_t F := vector f_zero f_zero f_zero f_one.

(** Modelled from the spec: [quaternion_scalar] builds a quaternion from
    four components, in (x,y,z,w) order. *)
Definition quaternion_scalar (x0 y0 z0 w0 : F) : quaternion_t F := vector x0 y0 z0 w0.

(** Modelled from the spec: the body of [quaternion_conjugate] is in the
    backend headers; [q' = (-q.x, -q.y, -q.z, q.w)]. *)
Definition quaternion_conjugate (q : quaternion_t F) : quaternion_t F :=
  vector (- x q) (- y q) (- z q) (w q).

(** Modelled from the spec: the body of [quaternion_inverse] is in the
    backend headers; [in = 1 / vector_length_sqr(q)],
    [q' = (q.x * -in, q.y * -in, q.z * -in, q.w * in)]. *)
Definition quaternion_inverse (q : quaternion_t F) : quaternion_t F :=
  let inv := f_one / vector_length_sqr q in
  vector (x q * - inv) (y q * - inv) (z q * - inv) (w q * inv).

(** Modelled from the spec: [quaternion_neg] negates every component. *)
Definition quaternion_neg (q : quaternion_t F) : quaternion_t F :=
  vector (- x q) (- y q) (- z q) (- w q).

(** Modelled from the spec: the body of [quaternion_normalize] is in the
    backend headers; it divides every component by the length, with no check
    of the length. *)
Definition quaternion_normalize (q : quaternion_t F) : quaternion_t F :=
  let len := vector_length q in
  vector (x q / len) (y q / len) (z q / len) (w q / len).

(** Modelled from the spec: the body of [quaternion_mul] is in the backend
    headers; the Hamilton product of q0 and q1. *)
Definition quaternion_mul (q0 q1 : quaternion_t F) : quaternion_t F :=
  vector (w q0 * x q1 + x q0 * w q1 + y q0 * z q1 - z q0 * y q1)
         (w q0 * y q1 - x q0 * z q1 + y q0 * w q1 + z q0 * x q1)
         (w q0 * z q1 + x q0 * y q1 - y q0 * x q1 + z q0 * w q1)
         (w q0 * w q1 - x q0 * x q1 - y q0 * y q1 - z q0 * z q1).

(** Modelled from the spec: [quaternion_add], component-wise addition. *)
Definition quaternion_add (q0 q1 : quaternion_t F) : quaternion_t F :=
  vector (x q0 + x q1) (y q0 + y q1) (z q0 + z q1) (w q0 + w q1).

(** Modelled from the spec: [quaternion_sub], component-wise subtraction. *)
Definition quaternion_sub (q0 q1 : quaternion_t F) : quaternion_t F :=
  vector (x q0 - x q1) (y q0 - y q1) (z q0 - z q1) (w q0 - w q1).

(** Modelled from the spec: the scaling of every lane by one factor, which
    the interpolation weights its inputs with. *)
Definition vector_scale (v : vector_t F) (s : F) : vector_t F :=
  vector (x v * s) (y v * s) (z v * s) (w v * s).

(** Modelled from the spec: the body of [quaternion_rotate] is in the backend
    headers; the double-cross-product form of q (0,v) conjugate(q), that is
    [v + 2 (w (u x v) + u x (u x v))] with u the imaginary part of q; the
    argument is read as the direction (x, y, z, 0) and the result has w = 0. *)
Definition quaternion_rotate (q : quaternion_t F) (v : vector_t F) : vector_t F :=
  let c1 := vector_cross3 q v in
  let c2 := vector_cross3 q c1 in
  vector (x v + f_two * (w q * x c1 + x c2))
         (y v + f_two * (w q * y c1 + y c2))
         (z v + f_two * (w q * z c1 + z c2))
         f_zero.

Section Slerp.

Context `{libm_ops F}.

(** The specification leaves two choices of [quaternion_slerp] open: which of
    the two inputs is negated when their dot product is negative, and how
    close to parallel the inputs must be for the linear fallback. *)
Variable negate_first : bool.
Variable parallel_threshold : F.

(** Modelled from the spec: the interpolation step of [quaternion_slerp] on
    inputs [a], [b] whose dot product [c] is not negative. For nearly
    parallel inputs the result is the renormalised linear interpolation,
    otherwise the spherical formula
    [a sin((1-t) angle) / sin angle + b sin(t angle) / sin angle] with
    [angle = acos c]. *)
Definition slerp_arc (a b : quaternion_t F) (c factor : F) : quaternion_t F :=
  if f_ltb parallel_threshold (f_one - c) then
    let angle := f_acos c in
    let s := f_sin angle in
    let f0 := f_sin ((f_one - factor) * angle) / s in
    let f1 := f_sin (factor * angle) / s in
    quaternion_add (vector_scale a f0) (vector_scale b f1)
  else
    quaternion_normalize
      (quaternion_add (vector_scale a (f_one - factor)) (vector_scale b factor)).

(** Modelled from the spec: the body of [quaternion_slerp] is in the backend
    headers. If the dot product of q0 and q1 is negative, one input is
    negated, so that the interpolation takes the shorter arc. *)
Definition quaternion_slerp (q0 q1 : quaternion_t F) (factor : F) : quaternion_t F :=
  let d := vector_dot q0 q1 in
  let flip := f_ltb d f_zero in
  let a := if flip && negate_first then quaternion_neg q0 else q0 in
  let b := if flip && negb negate_first then quaternion_neg q1 else q1 in
  let c := if flip then - d else d in
  slerp_arc a b c factor.

End Slerp.

End Functions.

End Quaternion.

(* ================================================================== *)
(** * The lanes of the backends: IEEE 754 binary32 *)
(* ================================================================== *)

Module Binary32.

Local Open Scope Z_scope.

(** A [float32_t] is its 32-bit pattern: sign bit 31, biased exponent in
    bits 30..23, fraction in bits 22..0. *)
Definition float32_t := Z.

Definition prec : Z := 24.
Definition emax : Z := 128.

Definition sign_bit : Z := Z.shiftl 1 31.
Definition quiet_nan : float32_t := 0x7FC00000.

(** The value a bit pattern stands for. *)
Definition to_sf (b : float32_t) : spec_float :=
  let s := Z.testbit b 31 in
  let e := Z.land (Z.shiftr b 23) 255 in
  let m := Z.land b (Z.ones 23) in
  if e =? 0 then
    match m with
    | Zpos p => S754_finite s p (-149)
    | _ => S754_zero s
    end
  else if e =? 255 then
    if m =? 0 then S754_infinity s else S754_nan
  else
    match m + Z.shiftl 1 23 with
    | Zpos p => S754_finite s p (e - 150)
    | _ => S754_nan
    end.

(** The bit pattern of a value; arithmetic produces the quiet NaN. *)
Definition of_sf (f : spec_float) : float32_t :=
  let sgn (s : bool) := if s then sign_bit else 0 in
  match f with
  | S754_zero s => sgn s
  | S754_infinity s => sgn s + Z.shiftl 255 23
  | S754_nan => quiet_nan
  | S754_finite s m e =>
      if Zpos m <? Z.shiftl 1 23 then sgn s + Zpos m
      else sgn s + Z.shiftl (e + 150) 23 + (Zpos m - Z.shiftl 1 23)
  end.

Definition lift1 (op : spec_float -> spec_float) (a : float32_t) : float32_t :=
  of_sf (op (to_sf a)).

Definition lift2 (op : spec_float -> spec_float -> spec_float)
    (a b : float32_t) : float32_t :=
  of_sf (op (to_sf a) (to_sf b)).

(** Negation reverses the sign bit and nothing else, also of a NaN. *)
Definition neg (a : float32_t) : float32_t := Z.lxor a sign_bit.

Definition add : float32_t -> float32_t -> float32_t := lift2 (SFadd prec emax).
Definition sub : float32_t -> float32_t -> float32_t := lift2 (SFsub prec emax).
Definition mul : float32_t -> float32_t -> float32_t := lift2 (SFmul prec emax).
Definition div : float32_t -> float32_t -> float32_t := lift2 (SFdiv prec emax).
Definition sqrt : float32_t -> float32_t := lift1 (SFsqrt prec emax).
Definition ltb (a b : float32_t) : bool := SFltb (to_sf a) (to_sf b).

Definition zero : float32_t := 0.
Definition one : float32_t := 0x3F800000.
Definition two : float32_t := 0x40000000.

#[export] Instance binary32_ops : Quaternion.lane_ops float32_t := {|
  Quaternion.f_zero := zero;
  Quaternion.f_one := one;
  Quaternion.f_two := two;
  Quaternion.f_neg := neg;
  Quaternion.f_add := add;
  Quaternion.f_sub := sub;
  Quaternion.f_mul := mul;
  Quaternion.f_div := div;
  Quaternion.f_sqrt := sqrt;
  Quaternion.f_ltb := ltb
|}.

(** A 32-bit pattern. *)
Definition is_float32 (b : Z) : Prop := 0 <= b < 2 ^ 32.

End Binary32.

(* ================================================================== *)
(** * The lanes as real numbers: exact arithmetic *)
(* ================================================================== *)

Module RealLanes.

Local Open Scope R_scope.

Definition ltb (a b : R) : bool := if Rlt_dec a b then true else false.

(** The arithmetic every backend approximates: the lanes are real numbers
    and no operation rounds. *)
#[export] Instance real_ops : Quaternion.lane_ops R := {|
  Quaternion.f_zero := 0;
  Quaternion.f_one := 1;
  Quaternion.f_two := 2;
  Quaternion.f_neg := Ropp;
  Quaternion.f_add := Rplus;
  Quaternion.f_sub := Rminus;
  Quaternion.f_mul := Rmult;
  Quaternion.f_div := Rdiv;
  Quaternion.f_sqrt := sqrt;
  Quaternion.f_ltb := ltb
|}.

#[export] Instance real_libm : Quaternion.libm_ops R := {|
  Quaternion.f_sin := sin;
  Quaternion.f_acos := acos
|}.

(** Lane-wise closeness: every lane of [a] is within [tol] of that of [b]. *)
Definition approx (tol : R) (a b : Quaternion.vector_t R) : Prop :=
  Rabs (Quaternion.x a - Quaternion.x b) <= tol
  /\ Rabs (Quaternion.y a - Quaternion.y b) <= tol
  /\ Rabs (Quaternion.z a - Quaternion.z b) <= tol
  /\ Rabs (Quaternion.w a - Quaternion.w b) <= tol.

(** The squared length of a four-lane value. *)
Definition norm2 (q : Quaternion.vector_t R) : R :=
  Quaternion.x q * Quaternion.x q + Quaternion.y q * Quaternion.y q
  + Quaternion.z q * Quaternion.z q + Quaternion.w q * Quaternion.w q.

(** A unit quaternion. *)
Definition unit_length (q : Quaternion.vector_t R) : Prop := norm2 q = 1.

(** The dot product of two four-lane values. *)
Definition dot (a b : Quaternion.vector_t R) : R :=
  Quaternion.x a * Quaternion.x b + Quaternion.y a * Quaternion.y b
  + Quaternion.z a * Quaternion.z b + Quaternion.w a * Quaternion.w b.

(** The direction (x, y, z, 0) that a vector argument is read as. *)
Definition direction (v : Quaternion.vector_t R) : Quaternion.vector_t R :=
  Quaternion.vector (Quaternion.x v) (Quaternion.y v) (Quaternion.z v) 0.

End RealLanes.

(* ================================================================== *)
(** * The other types of [types.h] *)
(* ================================================================== *)

Module Composite.

Import Layout.
Local Open Scope nat_scope.
Local Open Scope string_scope.

(** [typedef vector_t quaternion_t;] *)
Definition quaternion_t (simd : bool) : ctype := vector_t simd.

(** [typedef vector_t euler_angles_t;  // Order as uint32_t in w component] *)
Definition euler_angles_t (simd : bool) : ctype := vector_t simd.

(** [VECTOR_ALIGNED_STRUCT(dual_quaternion_t) { quaternion_t q[2]; };] *)
Definition dual_quaternion_t (simd : bool) : ctype :=
  VECTOR_ALIGN simd (Tstruct [("q", Tarray (quaternion_t simd) 2)]).

(** The members of [transform_t], in declaration order. *)
Definition transform_members : list string := ["rotation"; "translation"].

(** The bytes of the object that an access path designates, whatever its
    type. *)
Definition read_object (t : ctype) (m : memory) (p : list step) : option memory :=
  match resolve t 0 p with
  | Some (off, ty) => Some (load m off (sizeof ty))
  | None => None
  end.

(** Store [val] as the object that an access path designates; nothing is
    stored unless [val] has the size of that object. *)
Definition write_object (t : ctype) (m : memory) (p : list step) (val : memory)
  : option memory :=
  match resolve t 0 p with
  | Some (off, ty) =>
      if Nat.eqb (List.length val) (sizeof ty) then Some (store m off val) else None
  | None => None
  end.

(** The names of the four members of [matrix_t]. *)
Definition matrix_views : list string := ["comp"; "arr"; "frow"; "row"].

End Composite.

(* ================================================================== *)
(** * The names of the euler orders *)
(* ================================================================== *)

Module EulerNames.

Import Euler.
Local Open Scope string_scope.

(** The identifier of each enumerator, without its [EULER_] prefix: three
    axis letters and [s] or [r] for the frame. *)
Definition order_name (o : euler_angles_order_t) : string :=
  match o with
  | EULER_DEFAULTORDER => "DEFAULTORDER"
  | EULER_XYZs => "XYZs" | EULER_XYXs => "XYXs"
  | EULER_XZYs => "XZYs" | EULER_XZXs => "XZXs"
  | EULER_YZXs => "YZXs" | EULER_YZYs => "YZYs"
  | EULER_YXZs => "YXZs" | EULER_YXYs => "YXYs"
  | EULER_ZXYs => "ZXYs" | EULER_ZXZs => "ZXZs"
  | EULER_ZYXs => "ZYXs" | EULER_ZYZs => "ZYZs"
  | EULER_ZYXr => "ZYXr" | EULER_XYXr => "XYXr"
  | EULER_YZXr => "YZXr" | EULER_XZXr => "XZXr"
  | EULER_XZYr => "XZYr" | EULER_YZYr => "YZYr"
  | EULER_ZXYr => "ZXYr" | EULER_YXYr => "YXYr"
  | EULER_YXZr => "YXZr" | EULER_ZXZr => "ZXZr"
  | EULER_XYZr => "XYZr" | EULER_ZYZr => "ZYZr"
  end.

Inductive axis : Type := AxisX | AxisY | AxisZ.

Definition axis_of_letter (c : ascii) : option axis :=
  if Ascii.eqb c "X" then Some AxisX
  else if Ascii.eqb c "Y" then Some AxisY
  else if Ascii.eqb c "Z" then Some AxisZ
  else None.

Definition frame_of_letter (c : ascii) : option Z :=
  if Ascii.eqb c "s" then Some VECTOR_EULER_STATICFRAME
  else if Ascii.eqb c "r" then Some VECTOR_EULER_ROTATEFRAME
  else None.

(** The three axes and the frame that a name spells, in the order of its
    letters. *)
Definition name_letters (n : string) : option (axis * axis * axis * Z) :=
  match n with
  | String a (String b (String c (String f EmptyString))) =>
      match axis_of_letter a, axis_of_letter b, axis_of_letter c, frame_of_letter f with
      | Some a', Some b', Some c', Some f' => Some (a', b', c', f')
      | _, _, _, _ => None
      end
  | _ => None
  end.

Definition axis_eqb (a b : axis) : bool :=
  match a, b with
  | AxisX, AxisX | AxisY, AxisY | AxisZ, AxisZ => true
  | _, _ => false
  end.

(** The index of an axis as the first macro argument has it. *)
Definition axis_index (a : axis) : Z :=
  match a with AxisX => 0 | AxisY => 1 | AxisZ => 2 end.

(** The axis after [a] in the cyclic order X, Y, Z, X. *)
Definition next_axis (a : axis) : axis :=
  match a with AxisX => AxisY | AxisY => AxisZ | AxisZ => AxisX end.

(** The name with its three axis letters in reverse and the other frame
    letter. *)
Definition reversed_name (n : string) : string :=
  match n with
  | String a (String b (String c (String f EmptyString))) =>
      String c (String b (String a
        (String (if Ascii.eqb f "s" then "r"%char else "s"%char) EmptyString)))
  | _ => n
  end.

End EulerNames.

(* ================================================================== *)
(** * Selection of the backend *)
(* ================================================================== *)

Module Dispatch.

Local Open Scope Z_scope.

(** The macros of [vector/build.h] (not under src/) that the conditionals of
    [types.h] and [quaternion.h] test; each is an integer constant. *)
Record build_config : Type := {
  VECTOR_IMPLEMENTATION_SSE4 : Z;
  VECTOR_IMPLEMENTATION_SSE3 : Z;
  VECTOR_IMPLEMENTATION_SSE2 : Z;
  VECTOR_IMPLEMENTATION_NEON : Z
}.

(** The preprocessor takes a controlling expression as true when it is not
    zero. *)
Definition pp_true (v : Z) : bool := negb (v =? 0).

(** The header [quaternion.h] includes for its function bodies. *)
Inductive backend : Type :=
| quaternion_sse4_h
| quaternion_sse3_h
| quaternion_sse2_h
| quaternion_neon_h
| quaternion_fallback_h.

(** The [#if] / [#elif] / [#else] chain that ends [quaternion.h]. *)
Definition quaternion_backend (cfg : build_config) : backend :=
  if pp_true (VECTOR_IMPLEMENTATION_SSE4 cfg) then quaternion_sse4_h
  else if pp_true (VECTOR_IMPLEMENTATION_SSE3 cfg) then quaternion_sse3_h
  else if pp_true (VECTOR_IMPLEMENTATION_SSE2 cfg) then quaternion_sse2_h
  else if pp_true (VECTOR_IMPLEMENTATION_NEON cfg) then quaternion_neon_h
  else quaternion_fallback_h.

(** [#if VECTOR_IMPLEMENTATION_SSE4 || VECTOR_IMPLEMENTATION_SSE3 ||
    VECTOR_IMPLEMENTATION_SSE2] of [types.h]: whether [vector_t] is the
    register type [__m128] and [VECTOR_ALIGN] an alignment of 16 bytes. *)
Definition simd_types (cfg : build_config) : bool :=
  pp_true (VECTOR_IMPLEMENTATION_SSE4 cfg)
  || pp_true (VECTOR_IMPLEMENTATION_SSE3 cfg)
  || pp_true (VECTOR_IMPLEMENTATION_SSE2 cfg).

(** Whether [types.h] includes [pmmintrin.h]: the inner
    [#if VECTOR_IMPLEMENTATION_SSE4 || VECTOR_IMPLEMENTATION_SSE3]. *)
Definition includes_pmmintrin (cfg : build_config) : bool :=
  simd_types cfg
  && (pp_true (VECTOR_IMPLEMENTATION_SSE4 cfg)
      || pp_true (VECTOR_IMPLEMENTATION_SSE3 cfg)).

(** The headers written for the SSE register types. *)
Definition is_sse (b : backend) : bool :=
  match b with
  | quaternion_sse4_h | quaternion_sse3_h | quaternion_sse2_h => true
  | quaternion_neon_h | quaternion_fallback_h => false
  end.

End Dispatch.

(* ================================================================== *)
(** * Properties of the layout of [matrix_t] *)
(* ================================================================== *)

Section LayoutFacts.

Import Layout.
Local Open Scope nat_scope.
Local Abbreviation length := (@List.length byte).

(** [FOUNDATION_STATIC_ASSERT(sizeof(vector_t) == sizeof(float32_t) * 4)] *)
Lemma sizeof_vector_t (simd : bool) : sizeof (vector_t simd) = 4 * sizeof Tfloat32.
Proof. destruct simd; reflexivity. Qed.

(** [FOUNDATION_STATIC_ASSERT(sizeof(matrix_t) == sizeof(float32_t) * 16)] *)
Lemma sizeof_matrix_t (simd : bool) : sizeof (matrix_t simd) = 16 * sizeof Tfloat32.
Proof. destruct simd; reflexivity. Qed.

(** [FOUNDATION_STATIC_ASSERT(sizeof(transform_t) == sizeof(float32_t) * 8)] *)
Lemma sizeof_transform_t (simd : bool) : sizeof (transform_t simd) = 8 * sizeof Tfloat32.
Proof. destruct simd; reflexivity. Qed.

(** The alignment of a matrix is that of a [float32_t] in the portable
    configuration and 16 bytes when an SSE backend is selected. *)
Lemma alignof_matrix_t (simd : bool) :
  alignof (matrix_t simd) = if simd then 16 else 4.
Proof. destruct simd; reflexivity. Qed.

Ltac upto3 n H :=
  destruct n as [|[|[|[|n]]]]; [ | | | | exfalso; lia ]; clear H.

(** Each of the four paths to element (r, c) designates the [float32_t] at
    byte offset [4 * (4 * r + c)]. *)
Lemma resolve_view (simd : bool) (v : view) (r c : nat) :
  r <= 3 -> c <= 3 ->
  resolve (matrix_t simd) 0 (view_path simd v r c) = Some (4 * (4 * r + c), Tfloat32).
Proof.
  intros Hr Hc. upto3 r Hr; upto3 c Hc; destruct simd, v; reflexivity.
Qed.

(** A path with a row or column index of 4 or more designates nothing. *)
Lemma resolve_view_frow_out_of_range (simd : bool) (r c : nat) :
  3 < r \/ 3 < c ->
  resolve (matrix_t simd) 0 (view_path simd ViaFrow r c) = None.
Proof.
  intros H. destruct simd; cbn.
  all: destruct (Nat.leb_spec r 3) as [Hr|Hr]; [|reflexivity].
  all: destruct (Nat.leb_spec c 3) as [Hc|Hc]; [|reflexivity].
  all: lia.
Qed.

Lemma load_length (m : memory) (off n : nat) :
  off + n <= length m -> length (load m off n) = n.
Proof.
  intros H. unfold load. rewrite length_firstn, length_skipn. lia.
Qed.

Lemma store_length (m : memory) (off : nat) (val : memory) :
  off + length val <= length m -> length (store m off val) = length m.
Proof.
  intros H. unfold store.
  rewrite !length_app, length_firstn, length_skipn. lia.
Qed.

(** Reading back at the offset that was written returns the written bytes. *)
Lemma load_store_same (m : memory) (off : nat) (val : memory) :
  off <= length m ->
  load (store m off val) off (length val) = val.
Proof.
  intros H. unfold load, store.
  rewrite skipn_app, length_firstn, Nat.min_l by assumption.
  rewrite (skipn_all2 (firstn off m)) by (rewrite length_firstn; lia).
  rewrite Nat.sub_diag. cbn [skipn app].
  rewrite firstn_app, Nat.sub_diag, firstn_all. cbn [firstn].
  now rewrite app_nil_r.
Qed.

(** A write leaves every disjoint range as it was. *)
Lemma load_store_other (m : memory) (off off' n : nat) (val : memory) :
  off + length val <= length m ->
  off' + n <= off \/ off + length val <= off' ->
  load (store m off val) off' n = load m off' n.
Proof.
  intros Hlen Hdisj. unfold load, store.
  destruct Hdisj as [Hlo|Hhi].
  - rewrite skipn_app, length_firstn, Nat.min_l by lia.
    replace (off' - off) with 0 by lia. cbn [skipn].
    rewrite firstn_app, length_skipn, length_firstn, Nat.min_l by lia.
    replace (n - (off - off')) with 0 by lia. cbn [firstn].
    rewrite app_nil_r, skipn_firstn_comm, firstn_firstn.
    now rewrite Nat.min_l by lia.
  - rewrite app_assoc, skipn_app, length_app, length_firstn, Nat.min_l by lia.
    rewrite (skipn_all2 (firstn off m ++ val))
      by (rewrite length_app, length_firstn; lia).
    cbn [app]. rewrite skipn_skipn. f_equal. f_equal. lia.
Qed.

(** C1. For every matrix object and every element position (row, column)
    with row, column <= 3, in the portable and in the SSE layout alike, the
    four access paths [comp.mRC], [arr[4*row + column]], [frow[row][column]]
    and lane [column] of [row[row]] read the same four bytes, and four bytes
    written through any one of them are read back unchanged through any
    other. *)
Theorem matrix_views_agree (simd : bool) (m : memory) (r c : nat) (v1 v2 : view) :
  length m = sizeof (matrix_t simd) -> r <= 3 -> c <= 3 ->
  (exists bits, length bits = 4
     /\ read_view simd m v1 r c = Some bits
     /\ read_view simd m v2 r c = Some bits)
  /\ (forall val, length val = 4 ->
        exists m', write_view simd m v1 r c val = Some m'
          /\ length m' = length m
          /\ read_view simd m' v2 r c = Some val).
Proof.
  intros Hm Hr Hc. rewrite sizeof_matrix_t in Hm. cbn in Hm.
  unfold read_view, write_view. rewrite !resolve_view by assumption.
  split.
  - exists (load m (4 * (4 * r + c)) 4). repeat split.
    apply load_length. lia.
  - intros val Hval. eexists. split; [reflexivity|]. split.
    + apply store_length. lia.
    + f_equal. rewrite <- (load_store_same m (4 * (4 * r + c)) val) at 2 by lia.
      now rewrite Hval.
Qed.

Lemma matrix_views_agree_witness :
  read_view true sample_matrix ViaComp 2 3 = read_view true sample_matrix ViaRow 2 3
  /\ exists m', write_view false sample_matrix ViaComp 2 3 sample_float = Some m'
       /\ read_view false m' ViaArr 2 3 = Some sample_float.
Proof.
  split.
  - destruct (matrix_views_agree true sample_matrix 2 3 ViaComp ViaRow)
      as [[bits [_ [H1 H2]]] _]; [reflexivity | lia | lia |].
    rewrite H1, H2. reflexivity.
  - destruct (matrix_views_agree false sample_matrix 2 3 ViaComp ViaArr)
      as [_ H]; [reflexivity | lia | lia |].
    destruct (H sample_float eq_refl) as [m' [Hw [_ Hr]]].
    exists m'. split; assumption.
Defined.

End LayoutFacts.

(* ================================================================== *)
(** * Properties of the euler-order codec *)
(* ================================================================== *)

Section EulerFacts.

Import Euler.
Local Open Scope Z_scope.

Ltac enum_range H :=
  destruct H as [Hi [Hp [Hr Hf]]];
  match goal with
  | Hi : 0 <= ?i <= 2, Hp : 0 <= ?p <= 1, Hr : 0 <= ?r <= 1, Hf : 0 <= ?f <= 1 |- _ =>
      assert (Ei : i = 0 \/ i = 1 \/ i = 2) by lia;
      assert (Ep : p = 0 \/ p = 1) by lia;
      assert (Er : r = 0 \/ r = 1) by lia;
      assert (Ef : f = 0 \/ f = 1) by lia;
      clear Hi Hp Hr Hf;
      destruct Ei as [->|[->| ->]]; destruct Ep as [->| ->];
      destruct Er as [->| ->]; destruct Ef as [->| ->]
  end.

(** On its domain the macro, written with [+], computes the nested
    shift-and-or formula. *)
Lemma VECTOR_GETEULERORDER_is_spec_order (i p r f : Z) :
  in_range i p r f -> VECTOR_GETEULERORDER i p r f = spec_order i p r f.
Proof. intros H. enum_range H; reflexivity. Qed.

(** The descriptors of the domain are the integers 0 .. 23, so they are
    values of the enumeration's underlying [int]. *)
Lemma VECTOR_GETEULERORDER_bounds (i p r f : Z) :
  in_range i p r f -> 0 <= VECTOR_GETEULERORDER i p r f <= 23.
Proof. intros H. enum_range H; vm_compute; split; discriminate. Qed.

Lemma decode_encode (i p r f : Z) :
  in_range i p r f -> decode_order (VECTOR_GETEULERORDER i p r f) = (i, p, r, f).
Proof. intros H. enum_range H; reflexivity. Qed.

Lemma named_orders_in_range :
  Forall (fun o => let '(i, p, r, f) := order_args o in in_range i p r f) named_orders.
Proof. repeat constructor; cbv; intuition discriminate. Qed.

(** The encoding is injective on its domain. *)
Lemma VECTOR_GETEULERORDER_injective (i p r f i' p' r' f' : Z) :
  in_range i p r f -> in_range i' p' r' f' ->
  VECTOR_GETEULERORDER i p r f = VECTOR_GETEULERORDER i' p' r' f' ->
  (i, p, r, f) = (i', p', r', f').
Proof.
  intros H H' E. enum_range H; enum_range H'; first [reflexivity | discriminate E].
Qed.

(** C2. For axis in {0,1,2} and parity, repeat, frame in {0,1} the order
    descriptor is (((axis<<1 | parity)<<1 | repeat)<<1 | frame); the tuple
    that produced a descriptor is the only one of the domain that produces
    it, and decoding the descriptor recovers it; and encode-then-decode of
    each of the 24 named euler orders recovers the tuple it is defined
    with. *)
Theorem euler_order_roundtrip (i p r f : Z) (H : in_range i p r f) :
  VECTOR_GETEULERORDER i p r f = spec_order i p r f
  /\ (forall i' p' r' f' : Z,
        in_range i' p' r' f' ->
        VECTOR_GETEULERORDER i' p' r' f' = VECTOR_GETEULERORDER i p r f ->
        (i', p', r', f') = (i, p, r, f))
  /\ decode_order (VECTOR_GETEULERORDER i p r f) = (i, p, r, f)
  /\ List.length named_orders = 24%nat
  /\ Forall (fun o => decode_order (order_value o) = order_args o) named_orders.
Proof.
  split; [now apply VECTOR_GETEULERORDER_is_spec_order|].
  split.
  { intros i' p' r' f' H' E.
    now apply (VECTOR_GETEULERORDER_injective i' p' r' f' i p r f). }
  split; [now apply decode_encode|].
  split; [reflexivity|].
  repeat constructor.
Qed.

Lemma euler_order_roundtrip_witness :
  in_range 2 1 0 1
  /\ VECTOR_GETEULERORDER 2 1 0 1 = 21
  /\ decode_order 21 = (2, 1, 0, 1).
Proof.
  assert (H : in_range 2 1 0 1) by (cbv; intuition discriminate).
  split; [exact H|]. split; [reflexivity|].
  exact (proj1 (proj2 (proj2 (euler_order_roundtrip 2 1 0 1 H)))).
Defined.

(** C10. The 24 named euler orders are pairwise distinct, their values are
    exactly the integers 0 .. 23, the encoding is injective on axis in
    {0,1,2}, parity, repeat, frame in {0,1}, and [EULER_DEFAULTORDER] has the
    value of [EULER_XYZs], which is 0. *)
Theorem euler_orders_distinct :
  NoDup (map order_value named_orders)
  /\ (forall n : Z, In n (map order_value named_orders) <-> 0 <= n <= 23)
  /\ (forall i p r f i' p' r' f' : Z,
        in_range i p r f -> in_range i' p' r' f' ->
        VECTOR_GETEULERORDER i p r f = VECTOR_GETEULERORDER i' p' r' f' ->
        (i, p, r, f) = (i', p', r', f'))
  /\ order_value EULER_DEFAULTORDER = order_value EULER_XYZs
  /\ order_value EULER_XYZs = 0.
Proof.
  split.
  { vm_compute. repeat constructor; cbn; intuition discriminate. }
  split.
  { intros n. split.
    - vm_compute. intros H.
      repeat (destruct H as [<-|H]; [split; discriminate|]). contradiction.
    - intros [H0 H23].
      rewrite <- (Z2Nat.id n) by assumption.
      assert (Hk : (Z.to_nat n < 24)%nat) by lia.
      generalize dependent (Z.to_nat n). clear n H0 H23. intros k Hk.
      do 24 (destruct k as [|k]; [vm_compute; tauto|]). lia. }
  split; [exact VECTOR_GETEULERORDER_injective|].
  split; reflexivity.
Qed.

Lemma euler_orders_distinct_witness :
  in_range 0 1 1 0 /\ in_range 0 1 1 0
  /\ (0, 1, 1, 0) = (0, 1, 1, 0)
  /\ In 6 (map order_value named_orders).
Proof.
  assert (H : in_range 0 1 1 0) by (cbv; intuition discriminate).
  destruct euler_orders_distinct as [_ [Hv [Hinj _]]].
  split; [exact H|]. split; [exact H|].
  split; [exact (Hinj 0 1 1 0 0 1 1 0 H H eq_refl)|].
  apply Hv. split; discriminate.
Defined.

End EulerFacts.

(* ================================================================== *)
(** * Properties of binary32 lanes and of the conjugate *)
(* ================================================================== *)

Section ConjugateFacts.

Import Quaternion Binary32.
Local Open Scope Z_scope.

Lemma neg_involutive (a : float32_t) : neg (neg a) = a.
Proof.
  unfold neg. rewrite Z.lxor_assoc, Z.lxor_nilpotent. apply Z.lxor_0_r.
Qed.

Lemma testbit_sign (a : float32_t) : Z.testbit (neg a) 31 = negb (Z.testbit a 31).
Proof.
  unfold neg, sign_bit. rewrite Z.lxor_spec, Z.shiftl_spec by lia.
  cbn. now rewrite xorb_true_r.
Qed.

Lemma testbit_other (a : float32_t) (n : Z) :
  n <> 31 -> Z.testbit (neg a) n = Z.testbit a n.
Proof.
  intros Hn. unfold neg, sign_bit. rewrite Z.lxor_spec.
  destruct (Z.ltb_spec n 0) as [Hneg|Hpos].
  - now rewrite !Z.testbit_neg_r by assumption.
  - rewrite Z.shiftl_spec by assumption.
    destruct (Z.ltb_spec n 31) as [Hlt|Hge].
    + rewrite (Z.testbit_neg_r 1) by lia. apply xorb_false_r.
    + replace (Z.testbit 1 (n - 31)) with false; [apply xorb_false_r|].
      symmetry. apply (Z.bits_above_log2 1 (n - 31)); cbn; lia.
Qed.

Lemma exponent_neg (a : float32_t) :
  Z.land (Z.shiftr (neg a) 23) 255 = Z.land (Z.shiftr a 23) 255.
Proof.
  apply Z.bits_inj'. intros n Hn.
  rewrite !Z.land_spec, !Z.shiftr_spec by assumption.
  change 255 with (Z.ones 8).
  destruct (Z.ltb_spec n 8) as [Hlt|Hge].
  - now rewrite testbit_other by lia.
  - rewrite Z.ones_spec_high by lia. now rewrite !andb_false_r.
Qed.

Lemma fraction_neg (a : float32_t) :
  Z.land (neg a) (Z.ones 23) = Z.land a (Z.ones 23).
Proof.
  apply Z.bits_inj'. intros n Hn. rewrite !Z.land_spec.
  destruct (Z.ltb_spec n 23) as [Hlt|Hge].
  - now rewrite testbit_other by lia.
  - rewrite Z.ones_spec_high by lia. now rewrite !andb_false_r.
Qed.

(** Flipping the sign bit is the IEEE 754 negation of the value. *)
Lemma to_sf_neg (a : float32_t) : to_sf (neg a) = SFopp (to_sf a).
Proof.
  unfold to_sf. rewrite testbit_sign, exponent_neg, fraction_neg.
  destruct (Z.land (Z.shiftr a 23) 255 =? 0).
  - destruct (Z.land a (Z.ones 23)); reflexivity.
  - destruct (Z.land (Z.shiftr a 23) 255 =? 255).
    + destruct (Z.land a (Z.ones 23) =? 0); reflexivity.
    + destruct (Z.land a (Z.ones 23) + Z.shiftl 1 23); reflexivity.
Qed.

(** The negation of a 32-bit pattern is a 32-bit pattern. *)
Lemma neg_is_float32 (a : float32_t) : is_float32 a -> is_float32 (neg a).
Proof.
  unfold is_float32. intros [H0 H32].
  assert (Hn : 0 <= neg a).
  { unfold neg, sign_bit. apply Z.lxor_nonneg. cbn. lia. }
  split; [exact Hn|].
  destruct (Z.eq_dec (neg a) 0) as [->|Hne]; [reflexivity|].
  apply Z.log2_lt_pow2; [lia|].
  destruct (Z.le_gt_cases 32 (Z.log2 (neg a))) as [Hbig|Hsmall]; [|exact Hsmall].
  exfalso.
  pose proof (Z.bit_log2 (neg a) ltac:(lia)) as Hbit.
  rewrite testbit_other in Hbit by lia.
  rewrite Z.bits_above_log2 in Hbit; [discriminate|exact H0|].
  destruct (Z.eq_dec a 0) as [->|Ha]; [cbn; lia|].
  assert (Z.log2 a < 32) by (apply Z.log2_lt_pow2; lia). lia.
Qed.

(** ** The binary32 lanes at work *)

Example binary32_arithmetic :
  add one one = two
  /\ mul two two = 0x40800000
  /\ div one (add two one) = 0x3EAAAAAB
  /\ sqrt two = 0x3FB504F3
  /\ sub one one = zero
  /\ ltb one two = true.
Proof. repeat split; reflexivity. Qed.

Example binary32_patterns :
  of_sf (to_sf 0x80000001) = 0x80000001
  /\ of_sf (to_sf 0x7F7FFFFF) = 0x7F7FFFFF
  /\ of_sf (to_sf 0xFF800000) = 0xFF800000
  /\ to_sf one = S754_finite false 8388608 (-23).
Proof. repeat split; reflexivity. Qed.

(** [quaternion_identity()] is the literal (0, 0, 0, 1.0f). *)
Example identity_example :
  quaternion_identity = vector 0 0 0 0x3F800000.
Proof. reflexivity. Qed.

(** The quaternion of the rotation by 90 degrees about Z, (0, 0, s, s) with
    s the binary32 nearest to the square root of 1/2, takes (1, 0, 0, 0) to
    (2^-24, 1 - 2^-24, 0, 0). *)
Example rotate_example :
  quaternion_rotate (vector 0 0 0x3F3504F3 0x3F3504F3) (vector one 0 0 0)
  = vector 0x33800000 0x3F7FFFFF 0 0.
Proof. vm_compute. reflexivity. Qed.

Example mul_identity_example :
  quaternion_mul quaternion_identity (vector 0x3F000000 0xBF000000 0x3F000000 0x3F000000)
  = vector 0x3F000000 0xBF000000 0x3F000000 0x3F000000.
Proof. vm_compute. reflexivity. Qed.

Example conjugate_example :
  quaternion_conjugate (vector 0x3F800000 0x40000000 0x40400000 0x40800000)
  = vector 0xBF800000 0xC0000000 0xC0400000 0x40800000.
Proof. reflexivity. Qed.

Example conjugate_nan_example :
  quaternion_conjugate (quaternion_conjugate (vector 0x7FC00001 0xFFFFFFFF 0 0x80000000))
  = vector 0x7FC00001 0xFFFFFFFF 0 0x80000000.
Proof. reflexivity. Qed.

(** C3. For every quaternion q = (x, y, z, w) of binary32 lanes,
    [quaternion_conjugate q] is (-x, -y, -z, w): the x, y, z lanes are the
    IEEE negations of those of q and the w lane has the bits of w; and the
    conjugate of the conjugate has exactly the bits of q, lane by lane, NaN
    payloads and signed zeros included. *)
Theorem quaternion_conjugate_involutive (q : quaternion_t float32_t) :
  (to_sf (x (quaternion_conjugate q)) = SFopp (to_sf (x q))
   /\ to_sf (y (quaternion_conjugate q)) = SFopp (to_sf (y q))
   /\ to_sf (z (quaternion_conjugate q)) = SFopp (to_sf (z q))
   /\ w (quaternion_conjugate q) = w q)
  /\ quaternion_conjugate (quaternion_conjugate q) = q.
Proof.
  destruct q as [qx qy qz qw]. split.
  - cbn. repeat split; apply to_sf_neg.
  - unfold quaternion_conjugate. cbn. now rewrite !neg_involutive.
Qed.

End ConjugateFacts.

(* ================================================================== *)
(** * Properties of the quaternion functions in exact arithmetic *)
(* ================================================================== *)

Section RealFacts.

Import Quaternion RealLanes.
Local Open Scope R_scope.

Lemma ltb_lt (a b : R) : ltb a b = true <-> a < b.
Proof.
  unfold ltb. destruct (Rlt_dec a b); split; intros;
    try assumption; try reflexivity; try discriminate; contradiction.
Qed.

Lemma ltb_ge (a b : R) : ltb a b = false <-> b <= a.
Proof.
  unfold ltb. destruct (Rlt_dec a b); split; intros;
    try reflexivity; try discriminate; lra.
Qed.

Lemma vector_eq (a b : vector_t R) :
  x a = x b -> y a = y b -> z a = z b -> w a = w b -> a = b.
Proof. destruct a, b; cbn; intros; subst; reflexivity. Qed.

Lemma vector_dot_real (a b : vector_t R) : vector_dot a b = dot a b.
Proof. reflexivity. Qed.

Lemma approx_refl (tol : R) (q : vector_t R) : 0 <= tol -> approx tol q q.
Proof.
  intros H. unfold approx. rewrite !Rminus_diag, Rabs_R0. tauto.
Qed.

Lemma unit_length_neg (q : quaternion_t R) :
  unit_length q -> unit_length (quaternion_neg q).
Proof. unfold unit_length, norm2. cbn. intros H. rewrite <- H. ring. Qed.

(** Normalising a unit quaternion changes nothing. *)
Lemma quaternion_normalize_unit (q : quaternion_t R) :
  unit_length q -> quaternion_normalize q = q.
Proof.
  intros H. unfold quaternion_normalize, vector_length, vector_length_sqr.
  rewrite vector_dot_real. change (dot q q) with (norm2 q). rewrite H.
  cbn [f_sqrt f_div real_ops]. rewrite sqrt_1.
  apply vector_eq; cbn; field.
Qed.

Lemma sin_acos_pos (c : R) : 0 <= c < 1 -> 0 < sin (acos c).
Proof.
  intros Hc. rewrite sin_acos by lra.
  apply sqrt_lt_R0. unfold Rsqr. nra.
Qed.

Section Slerp.

Variable negate_first : bool.
Variable thr : R.
Hypothesis Hthr : 0 <= thr.

(** At factor 0 and 1 the interpolation step returns its first and its
    second input, on the spherical and on the linear path alike. *)
Lemma slerp_arc_endpoints (a b : quaternion_t R) (c : R) :
  unit_length a -> unit_length b -> 0 <= c ->
  slerp_arc thr a b c 0 = a /\ slerp_arc thr a b c 1 = b.
Proof.
  intros Ha Hb Hc. unfold slerp_arc.
  cbn [f_ltb f_one f_sub f_mul f_div f_sin f_acos real_ops real_libm].
  destruct (ltb thr (1 - c)) eqn:E.
  - apply ltb_lt in E.
    assert (Hs : 0 < sin (acos c)) by (apply sin_acos_pos; lra).
    rewrite Rminus_0_r, Rminus_diag, Rmult_1_l, Rmult_0_l, sin_0.
    split; apply vector_eq; cbn; field; lra.
  - split.
    + rewrite <- (quaternion_normalize_unit a Ha) at 2. f_equal.
      apply vector_eq; cbn; ring.
    + rewrite <- (quaternion_normalize_unit b Hb) at 2. f_equal.
      apply vector_eq; cbn; ring.
Qed.

Lemma slerp_arc_same (a : quaternion_t R) (t : R) :
  unit_length a -> slerp_arc thr a a 1 t = a.
Proof.
  intros Ha. unfold slerp_arc.
  cbn [f_ltb f_one f_sub real_ops]. rewrite Rminus_diag.
  replace (ltb thr 0) with false by (symmetry; apply ltb_ge; exact Hthr).
  rewrite <- (quaternion_normalize_unit a Ha) at 3. f_equal.
  apply vector_eq; cbn; ring.
Qed.

Lemma quaternion_slerp_nonneg (q0 q1 : quaternion_t R) (t : R) :
  0 <= dot q0 q1 ->
  quaternion_slerp negate_first thr q0 q1 t = slerp_arc thr q0 q1 (dot q0 q1) t.
Proof.
  intros Hd. unfold quaternion_slerp. rewrite vector_dot_real.
  cbn [f_ltb f_zero real_ops].
  replace (ltb (dot q0 q1) 0) with false by (symmetry; apply ltb_ge; exact Hd).
  reflexivity.
Qed.

Lemma quaternion_slerp_neg (q0 q1 : quaternion_t R) (t : R) :
  dot q0 q1 < 0 ->
  quaternion_slerp negate_first thr q0 q1 t =
  slerp_arc thr (if negate_first then quaternion_neg q0 else q0)
                (if negate_first then q1 else quaternion_neg q1)
                (- dot q0 q1) t.
Proof.
  intros Hd. unfold quaternion_slerp. rewrite vector_dot_real.
  cbn [f_ltb f_zero f_neg real_ops].
  replace (ltb (dot q0 q1) 0) with true by (symmetry; apply ltb_lt; exact Hd).
  destruct negate_first; reflexivity.
Qed.


End Slerp.




(** ** The other functions in exact arithmetic

    The identities below hold when no operation rounds. They say nothing of
    the size of the rounding error of a backend. *)

(** The identity is neutral for the Hamilton product. *)
Lemma quaternion_mul_identity_exact (q : quaternion_t R) :
  quaternion_mul quaternion_identity q = q /\ quaternion_mul q quaternion_identity = q.
Proof. split; apply vector_eq; cbn; ring. Qed.

(** The Hamilton product is associative. *)
Lemma quaternion_mul_assoc_exact (q0 q1 q2 : quaternion_t R) :
  quaternion_mul (quaternion_mul q0 q1) q2 = quaternion_mul q0 (quaternion_mul q1 q2).
Proof. apply vector_eq; cbn; ring. Qed.

(** The inverse is a two-sided inverse for the Hamilton product. *)
Lemma quaternion_inverse_exact (q : quaternion_t R) :
  norm2 q <> 0 ->
  quaternion_mul q (quaternion_inverse q) = quaternion_identity
  /\ quaternion_mul (quaternion_inverse q) q = quaternion_identity.
Proof.
  intros H. unfold norm2 in H. split; apply vector_eq; cbn; field; exact H.
Qed.

(** The inverse of a unit quaternion is its conjugate. *)
Lemma quaternion_inverse_unit_exact (q : quaternion_t R) :
  unit_length q -> quaternion_inverse q = quaternion_conjugate q.
Proof.
  intros H. unfold quaternion_inverse, vector_length_sqr.
  rewrite vector_dot_real. change (dot q q) with (norm2 q). rewrite H.
  apply vector_eq; cbn; field.
Qed.

(** A normalised quaternion has unit length. *)
Lemma quaternion_normalize_exact (q : quaternion_t R) :
  0 < norm2 q -> unit_length (quaternion_normalize q).
Proof.
  intros H. unfold unit_length, quaternion_normalize, vector_length, vector_length_sqr.
  rewrite vector_dot_real. change (dot q q) with (norm2 q).
  cbn [f_sqrt f_div real_ops].
  assert (Hs : 0 < sqrt (norm2 q)) by (apply sqrt_lt_R0; exact H).
  assert (E : sqrt (norm2 q) * sqrt (norm2 q) = norm2 q) by (apply sqrt_sqrt; lra).
  revert Hs E. generalize (sqrt (norm2 q)). intros s Hs E.
  unfold norm2 in *. cbn [x y z w].
  transitivity ((x q * x q + y q * y q + z q * z q + w q * w q) / (s * s)).
  - field. lra.
  - rewrite E. field. lra.
Qed.

(** The squared length of a rotated direction, for any q. *)
Lemma quaternion_rotate_norm2 (q : quaternion_t R) (v : vector_t R) :
  norm2 (quaternion_rotate q v) =
  norm2 (direction v)
  + 4 * (1 - norm2 q)
      * (dot (direction q) (direction v) * dot (direction q) (direction v)
         - norm2 (direction q) * norm2 (direction v)).
Proof.
  destruct q as [qx qy qz qw], v as [vx vy vz vw].
  unfold norm2, dot, direction. cbn. ring.
Qed.

(** A unit quaternion rotates a direction to a direction of the same length. *)
Lemma quaternion_rotate_exact (q : quaternion_t R) (v : vector_t R) :
  unit_length q ->
  w (quaternion_rotate q v) = 0
  /\ norm2 (quaternion_rotate q v) = norm2 (direction v).
Proof.
  intros H. split; [reflexivity|].
  rewrite quaternion_rotate_norm2, H. ring.
Qed.

End RealFacts.

(* ================================================================== *)
(** * Further properties of the layouts of [types.h] *)
(* ================================================================== *)

Section LayoutMore.

Import Layout Composite.
Local Open Scope nat_scope.
Local Abbreviation length := (@List.length byte).

Ltac upto n k H :=
  do k (destruct n as [|n]; [|]); [ .. | exfalso; lia ]; clear H.

(** A read of [a + b] bytes is a read of [a] bytes followed by one of [b]. *)
Lemma load_split (m : memory) (off a b : nat) :
  load m off (a + b) = (load m off a ++ load m (off + a) b)%list.
Proof.
  unfold load. replace (off + a) with (a + off) by lia.
  rewrite <- (skipn_skipn a off m).
  generalize (skipn off m). clear m off. intros l.
  revert l. induction a as [|a IH]; intros l.
  - reflexivity.
  - destruct l as [|h t].
    + cbn. now rewrite firstn_nil.
    + cbn [Nat.add firstn skipn app]. now rewrite IH.
Qed.

(** A read inside the bytes that were just stored returns the stored bytes. *)
Lemma load_store_inside (m : memory) (off k n : nat) (val : memory) :
  off <= length m -> k + n <= length val ->
  load (store m off val) (off + k) n = load val k n.
Proof.
  intros Hoff Hk. unfold load, store.
  replace (off + k) with (k + off) by lia.
  rewrite <- skipn_skipn.
  rewrite (skipn_app off), length_firstn, Nat.min_l by assumption.
  rewrite (skipn_all2 (firstn off m)) by (rewrite length_firstn; lia).
  rewrite Nat.sub_diag. cbn [skipn app].
  rewrite skipn_app, firstn_app, length_skipn.
  replace (n - (length val - k)) with 0 by lia. cbn [firstn].
  now rewrite app_nil_r.
Qed.

(** X1. Writing four bytes to element (r, c) of a matrix through any view
    leaves every other element (r', c') as it was, whichever view reads it:
    distinct positions never share a byte. *)
Theorem matrix_write_frame (simd : bool) (m : memory) (r c r' c' : nat)
    (v1 v2 : view) (val : memory) :
  length m = sizeof (matrix_t simd) ->
  r <= 3 -> c <= 3 -> r' <= 3 -> c' <= 3 -> (r, c) <> (r', c') ->
  length val = 4 ->
  exists m', write_view simd m v1 r c val = Some m'
    /\ read_view simd m' v2 r' c' = read_view simd m v2 r' c'.
Proof.
  intros Hm Hr Hc Hr' Hc' Hne Hval. rewrite sizeof_matrix_t in Hm. cbn in Hm.
  unfold read_view, write_view. rewrite !resolve_view by assumption.
  eexists. split; [reflexivity|]. f_equal.
  apply load_store_other; [lia|].
  rewrite Hval.
  assert (4 * r + c <> 4 * r' + c').
  { intros E. apply Hne. f_equal; lia. }
  lia.
Qed.


(** [row[r]] is the vector at byte offset [16 * r]. *)
Lemma resolve_row (simd : bool) (r : nat) :
  r <= 3 ->
  resolve (matrix_t simd) 0 [Field "row"; Index r]
  = Some (16 * r, unaligned (vector_t simd)).
Proof.
  intros Hr. destruct r as [|[|[|[|r]]]]; [ | | | | exfalso; lia ];
    destruct simd; reflexivity.
Qed.

(** X2. The matrix is row major: the vector [row[r]] is the sixteen bytes of
    the elements [frow[r][0]], [frow[r][1]], [frow[r][2]], [frow[r][3]], in
    this order. *)
Theorem matrix_row_vector (simd : bool) (m : memory) (r : nat) :
  length m = sizeof (matrix_t simd) -> r <= 3 ->
  exists b0 b1 b2 b3,
    read_view simd m ViaFrow r 0 = Some b0
    /\ read_view simd m ViaFrow r 1 = Some b1
    /\ read_view simd m ViaFrow r 2 = Some b2
    /\ read_view simd m ViaFrow r 3 = Some b3
    /\ read_object (matrix_t simd) m [Field "row"; Index r]
       = Some (b0 ++ b1 ++ b2 ++ b3)%list.
Proof.
  intros Hm Hr. unfold read_view, read_object.
  rewrite !resolve_view, resolve_row by lia.
  do 4 eexists. repeat (split; [reflexivity|]). f_equal.
  replace (sizeof (unaligned (vector_t simd))) with (4 + (4 + (4 + 4)))
    by (destruct simd; reflexivity).
  rewrite !load_split.
  replace (4 * (4 * r + 0)) with (16 * r) by lia.
  replace (4 * (4 * r + 1)) with (16 * r + 4) by lia.
  replace (4 * (4 * r + 2)) with (16 * r + 4 + 4) by lia.
  replace (4 * (4 * r + 3)) with (16 * r + 4 + 4 + 4) by lia.
  reflexivity.
Qed.

Lemma matrix_row_vector_witness :
  read_object (matrix_t false) sample_matrix [Field "row"; Index 2]
  = Some (repeat x00 16).
Proof.
  destruct (matrix_row_vector false sample_matrix 2 eq_refl)
    as [b0 [b1 [b2 [b3 [H0 [H1 [H2 [H3 H]]]]]]]]; [lia|].
  injection H0 as <-. injection H1 as <-. injection H2 as <-. injection H3 as <-.
  exact H.
Defined.

(** X3. Writing a whole vector to [row[r]] sets the four elements of row r
    to its four lanes, whichever view reads them, and leaves the elements of
    every other row as they were. *)
Theorem matrix_row_write (simd : bool) (m b0 b1 b2 b3 : memory) (r : nat) :
  length m = sizeof (matrix_t simd) -> r <= 3 ->
  length b0 = 4 -> length b1 = 4 -> length b2 = 4 -> length b3 = 4 ->
  exists m',
    write_object (matrix_t simd) m [Field "row"; Index r] (b0 ++ b1 ++ b2 ++ b3)%list
    = Some m'
    /\ (forall (v : view) (c : nat), c <= 3 ->
          read_view simd m' v r c = Some (nth c [b0; b1; b2; b3] []))
    /\ (forall (v : view) (r' c : nat), r' <= 3 -> c <= 3 -> r' <> r ->
          read_view simd m' v r' c = read_view simd m v r' c).
Proof.
  intros Hm Hr L0 L1 L2 L3. rewrite sizeof_matrix_t in Hm. cbn in Hm.
  assert (Lv : length (b0 ++ b1 ++ b2 ++ b3) = 16)
    by (rewrite !length_app; lia).
  unfold write_object. rewrite resolve_row by assumption.
  replace (sizeof (unaligned (vector_t simd))) with 16 by (destruct simd; reflexivity).
  rewrite Lv. cbn [Nat.eqb]. eexists. split; [reflexivity|]. split.
  - intros v c Hc. unfold read_view. rewrite resolve_view by assumption. f_equal.
    replace (4 * (4 * r + c)) with (16 * r + 4 * c) by lia.
    rewrite load_store_inside by lia.
    clear Lv.
    destruct b0 as [|? [|? [|? [|? [|? ?]]]]]; try discriminate L0.
    destruct b1 as [|? [|? [|? [|? [|? ?]]]]]; try discriminate L1.
    destruct b2 as [|? [|? [|? [|? [|? ?]]]]]; try discriminate L2.
    destruct b3 as [|? [|? [|? [|? [|? ?]]]]]; try discriminate L3.
    destruct c as [|[|[|[|c]]]]; [ | | | | exfalso; lia ]; reflexivity.
  - intros v r' c Hr' Hc Hne. unfold read_view.
    rewrite resolve_view by assumption. f_equal.
    apply load_store_other; lia.
Qed.

Lemma matrix_row_write_witness :
  exists m',
    write_object (matrix_t true) sample_matrix [Field "row"; Index 1]
      (sample_float ++ sample_float ++ sample_float ++ sample_float)%list = Some m'
    /\ read_view true m' ViaComp 1 2 = Some sample_float
    /\ read_view true m' ViaArr 3 0 = read_view true sample_matrix ViaArr 3 0.
Proof.
  destruct (matrix_row_write true sample_matrix sample_float sample_float
              sample_float sample_float 1 eq_refl)
    as [m' [Hw [Hin Hout]]]; try reflexivity; try lia.
  exists m'. split; [exact Hw|]. split.
  - apply (Hin ViaComp 2). lia.
  - apply (Hout ViaArr 3 0); lia.
Defined.

(** X4. [arr[i]] designates an element exactly when i < 16, and then it is
    the element of row [i / 4] and column [i mod 4] of every view. *)
Theorem matrix_flat_index (simd : bool) (m : memory) (i : nat) (v : view) :
  length m = sizeof (matrix_t simd) ->
  (i < 16 ->
     exists bits, length bits = 4
       /\ read_object (matrix_t simd) m [Field "arr"; Index i] = Some bits
       /\ read_view simd m v (i / 4) (i mod 4) = Some bits)
  /\ (16 <= i -> read_object (matrix_t simd) m [Field "arr"; Index i] = None).
Proof.
  intros Hm. rewrite sizeof_matrix_t in Hm. cbn in Hm. split.
  - intros Hi.
    assert (Hr : i / 4 <= 3) by (apply Nat.lt_succ_r, Nat.Div0.div_lt_upper_bound; lia).
    assert (Hc : i mod 4 <= 3) by (pose proof (Nat.mod_upper_bound i 4); lia).
    pose proof (resolve_view simd ViaArr (i / 4) (i mod 4) Hr Hc) as Ha.
    cbn [view_path] in Ha. rewrite <- (Nat.div_mod_eq i 4) in Ha.
    unfold read_object, read_view. rewrite Ha, resolve_view by assumption.
    rewrite <- (Nat.div_mod_eq i 4).
    exists (load m (4 * i) 4). split; [|split; reflexivity].
    apply load_length. lia.
  - intros Hi. unfold read_object.
    replace (resolve (matrix_t simd) 0 [Field "arr"; Index i]) with (@None (nat * ctype));
      [reflexivity|].
    destruct simd; cbn; destruct (Nat.leb_spec i 15); try reflexivity; lia.
Qed.

Lemma matrix_flat_index_witness :
  read_object (matrix_t false) sample_matrix [Field "arr"; Index 16] = None
  /\ exists bits,
       read_object (matrix_t false) sample_matrix [Field "arr"; Index 7] = Some bits
       /\ read_view false sample_matrix ViaComp 1 3 = Some bits.
Proof.
  split.
  - apply (matrix_flat_index false sample_matrix 16 ViaComp eq_refl). lia.
  - destruct (matrix_flat_index false sample_matrix 7 ViaComp eq_refl) as [H _].
    destruct H as [bits [_ [Ha Hv]]]; [lia|].
    exists bits. split; [exact Ha|exact Hv].
Defined.



(** X6. A [transform_t] and a [dual_quaternion_t] are eight contiguous
    floats: lane c of member k (rotation then translation, q[0] then q[1])
    is at byte offset [4 * (4 * k + c)], so the scale, the w lane of the
    translation, is the last float, and both types are 32 bytes. *)
Theorem composite_lanes (simd : bool) (k c : nat) :
  k <= 1 -> c <= 3 ->
  resolve (transform_t simd) 0 [Field (nth k transform_members ""%string); lane simd c]
  = Some (4 * (4 * k + c), Tfloat32)
  /\ resolve (dual_quaternion_t simd) 0 [Field "q"; Index k; lane simd c]
     = Some (4 * (4 * k + c), Tfloat32)
  /\ sizeof (transform_t simd) = 32
  /\ sizeof (dual_quaternion_t simd) = 32.
Proof.
  intros Hk Hc.
  destruct k as [|[|k]]; [ | | exfalso; lia ];
    (destruct c as [|[|[|[|c]]]]; [ | | | | exfalso; lia ]);
    destruct simd; repeat split; reflexivity.
Qed.

Lemma composite_lanes_witness :
  resolve (transform_t true) 0 [Field "translation"; lane true 3] = Some (28, Tfloat32).
Proof.
  apply (composite_lanes true 1 3); lia.
Defined.

(** X7. The four size assertions of [types.h] hold in the portable and in
    the SSE configuration, and each of the four members of [matrix_t] starts
    at offset 0 and has the size of the whole matrix. *)
Theorem static_assertions (simd : bool) :
  sizeof (vector_t simd) = sizeof Tfloat32 * 4
  /\ sizeof (matrix_t simd) = sizeof Tfloat32 * 16
  /\ sizeof (transform_t simd) = sizeof Tfloat32 * 8
  /\ sizeof (euler_angles_t simd) = sizeof Tfloat32 * 4
  /\ Forall (fun name =>
       exists t, resolve (matrix_t simd) 0 [Field name] = Some (0, t)
                 /\ sizeof t = sizeof (matrix_t simd)) matrix_views.
Proof.
  destruct simd; repeat split;
    repeat (apply Forall_cons; [eexists; split; reflexivity|]); apply Forall_nil.
Qed.

(** X8. In both configurations a matrix, a transform and a dual quaternion
    have the alignment of [vector_t] (16 bytes with an SSE backend, 4
    without), and every [vector_t] inside them, [row[r]], [rotation],
    [translation] and [q[k]], lies at an offset that is a multiple of it. *)
Theorem vector_members_aligned (simd : bool) (r k : nat) :
  r <= 3 -> k <= 1 ->
  alignof (vector_t simd) = (if simd then 16 else 4)
  /\ alignof (matrix_t simd) = alignof (vector_t simd)
  /\ alignof (transform_t simd) = alignof (vector_t simd)
  /\ alignof (dual_quaternion_t simd) = alignof (vector_t simd)
  /\ (exists off, resolve (matrix_t simd) 0 [Field "row"; Index r]
                    = Some (off, unaligned (vector_t simd))
                  /\ off mod alignof (vector_t simd) = 0)
  /\ (exists off, resolve (transform_t simd) 0 [Field (nth k transform_members ""%string)]
                    = Some (off, unaligned (vector_t simd))
                  /\ off mod alignof (vector_t simd) = 0)
  /\ (exists off, resolve (dual_quaternion_t simd) 0 [Field "q"; Index k]
                    = Some (off, unaligned (vector_t simd))
                  /\ off mod alignof (vector_t simd) = 0).
Proof.
  intros Hr Hk.
  destruct r as [|[|[|[|r]]]]; [ | | | | exfalso; lia ];
    (destruct k as [|[|k]]; [ | | exfalso; lia ]);
    destruct simd; repeat split; eexists; split; reflexivity.
Qed.

Lemma matrix_write_frame_witness :
  exists m', write_view true sample_matrix ViaComp 0 3 sample_float = Some m'
    /\ read_view true m' ViaArr 1 0 = read_view true sample_matrix ViaArr 1 0.
Proof.
  apply (matrix_write_frame true sample_matrix 0 3 1 0 ViaComp ViaArr sample_float);
    try reflexivity; try lia.
  intros E. discriminate E.
Defined.

Lemma vector_members_aligned_witness :
  exists off, resolve (matrix_t true) 0 [Field "row"; Index 3]
                = Some (off, unaligned (vector_t true))
              /\ off mod 16 = 0.
Proof.
  destruct (vector_members_aligned true 3 0) as [_ [_ [_ [_ [H _]]]]]; try lia.
  exact H.
Defined.

End LayoutMore.

(* ================================================================== *)
(** * Further properties of the euler orders and of the dispatch *)
(* ================================================================== *)

Section EulerMore.

Import Euler EulerNames.
Local Open Scope Z_scope.

(** The shifts and additions of the macro as one linear form. *)
Lemma VECTOR_GETEULERORDER_linear (i p r f : Z) :
  VECTOR_GETEULERORDER i p r f = 8 * i + 4 * p + 2 * r + f.
Proof.
  unfold VECTOR_GETEULERORDER. rewrite !Z.shiftl_mul_pow2 by lia.
  change (2 ^ 1) with 2. ring.
Qed.

(** X9. The macro does not mask its arguments: for arguments below 2^27
    the result is [8 i + 4 p + 2 r + f], a value of [int], so an argument
    beyond one bit carries into the next field: parity + 2 is axis + 1,
    repeat + 2 is parity + 1 and frame + 2 is repeat + 1. *)
Theorem VECTOR_GETEULERORDER_unmasked (i p r f : Z) :
  0 <= i < 2 ^ 27 -> 0 <= p < 2 ^ 27 -> 0 <= r < 2 ^ 27 -> 0 <= f < 2 ^ 27 ->
  0 <= VECTOR_GETEULERORDER i p r f < 2 ^ 31
  /\ VECTOR_GETEULERORDER i p r f = 8 * i + 4 * p + 2 * r + f
  /\ VECTOR_GETEULERORDER i (p + 2) r f = VECTOR_GETEULERORDER (i + 1) p r f
  /\ VECTOR_GETEULERORDER i p (r + 2) f = VECTOR_GETEULERORDER i (p + 1) r f
  /\ VECTOR_GETEULERORDER i p r (f + 2) = VECTOR_GETEULERORDER i p (r + 1) f.
Proof.
  intros Hi Hp Hr Hf. rewrite !VECTOR_GETEULERORDER_linear.
  change (2 ^ 27) with 134217728 in *. change (2 ^ 31) with 2147483648.
  repeat split; lia.
Qed.

Lemma VECTOR_GETEULERORDER_unmasked_witness :
  VECTOR_GETEULERORDER 0 2 0 0 = VECTOR_GETEULERORDER 1 0 0 0.
Proof.
  apply (VECTOR_GETEULERORDER_unmasked 0 0 0 0); cbv; split; congruence.
Defined.

Ltac pick_order :=
  first
    [ exists EULER_XYZs; split; [cbn; tauto|split; reflexivity]
    | exists EULER_XYXs; split; [cbn; tauto|split; reflexivity]
    | exists EULER_XZYs; split; [cbn; tauto|split; reflexivity]
    | exists EULER_XZXs; split; [cbn; tauto|split; reflexivity]
    | exists EULER_YZXs; split; [cbn; tauto|split; reflexivity]
    | exists EULER_YZYs; split; [cbn; tauto|split; reflexivity]
    | exists EULER_YXZs; split; [cbn; tauto|split; reflexivity]
    | exists EULER_YXYs; split; [cbn; tauto|split; reflexivity]
    | exists EULER_ZXYs; split; [cbn; tauto|split; reflexivity]
    | exists EULER_ZXZs; split; [cbn; tauto|split; reflexivity]
    | exists EULER_ZYXs; split; [cbn; tauto|split; reflexivity]
    | exists EULER_ZYZs; split; [cbn; tauto|split; reflexivity]
    | exists EULER_ZYXr; split; [cbn; tauto|split; reflexivity]
    | exists EULER_XYXr; split; [cbn; tauto|split; reflexivity]
    | exists EULER_YZXr; split; [cbn; tauto|split; reflexivity]
    | exists EULER_XZXr; split; [cbn; tauto|split; reflexivity]
    | exists EULER_XZYr; split; [cbn; tauto|split; reflexivity]
    | exists EULER_YZYr; split; [cbn; tauto|split; reflexivity]
    | exists EULER_ZXYr; split; [cbn; tauto|split; reflexivity]
    | exists EULER_YXYr; split; [cbn; tauto|split; reflexivity]
    | exists EULER_YXZr; split; [cbn; tauto|split; reflexivity]
    | exists EULER_ZXZr; split; [cbn; tauto|split; reflexivity]
    | exists EULER_XYZr; split; [cbn; tauto|split; reflexivity]
    | exists EULER_ZYZr; split; [cbn; tauto|split; reflexivity] ].

(** X10. Each of the 24 names spells its macro arguments. Read the three
    axis letters from the first for a static frame ([s]) and from the last
    for a rotating frame ([r]): the axis argument is the index of the first
    axis read, the parity is even exactly when the middle letter is its
    cyclic successor, the repeat argument is set exactly when the first and
    the last letter are the same, and the frame argument is the frame
    letter. *)
Theorem euler_order_names :
  Forall (fun o =>
    exists a b c fr,
      name_letters (order_name o) = Some (a, b, c, fr)
      /\ order_args o =
         (axis_index (if fr =? VECTOR_EULER_STATICFRAME then a else c),
          (if axis_eqb (next_axis (if fr =? VECTOR_EULER_STATICFRAME then a else c)) b
           then VECTOR_EULER_EVEN else VECTOR_EULER_ODD),
          (if axis_eqb a c then VECTOR_EULER_REPEAT else VECTOR_EULER_NOREPEAT),
          fr)) named_orders.
Proof.
  unfold named_orders.
  repeat (apply Forall_cons; [do 4 eexists; split; reflexivity|]).
  apply Forall_nil.
Qed.

(** X11. Reversing the axis letters of a named order and exchanging [s] and
    [r] gives the name of another of the 24 orders, and its value is the
    value of the first with the frame bit flipped. *)
Theorem euler_order_frame_pairs :
  Forall (fun o =>
    exists o', In o' named_orders
      /\ order_name o' = reversed_name (order_name o)
      /\ order_value o' = Z.lxor (order_value o) 1) named_orders.
Proof.
  apply Forall_forall. intros o Ho. unfold named_orders in Ho.
  repeat (destruct Ho as [<-|Ho]; [pick_order|]).
  destruct Ho.
Qed.

End EulerMore.

Section DispatchFacts.

Import Dispatch.
Local Open Scope Z_scope.

(** X12. Whatever the build macros are, [types.h] declares [vector_t] as the
    16-byte aligned register type exactly when [quaternion.h] includes one of
    the three SSE headers; with the NEON header and with the fallback the
    lanes are the portable record of alignment 4. [pmmintrin.h] is included
    exactly with the SSE4 and the SSE3 header, and the fallback is chosen
    exactly when all four macros are 0. *)
Theorem backend_matches_types (cfg : build_config) :
  is_sse (quaternion_backend cfg) = simd_types cfg
  /\ Layout.alignof (Layout.vector_t (simd_types cfg))
     = (if is_sse (quaternion_backend cfg) then 16 else 4)%nat
  /\ (includes_pmmintrin cfg = true <->
      quaternion_backend cfg = quaternion_sse4_h
      \/ quaternion_backend cfg = quaternion_sse3_h)
  /\ (quaternion_backend cfg = quaternion_fallback_h <->
      VECTOR_IMPLEMENTATION_SSE4 cfg = 0 /\ VECTOR_IMPLEMENTATION_SSE3 cfg = 0
      /\ VECTOR_IMPLEMENTATION_SSE2 cfg = 0 /\ VECTOR_IMPLEMENTATION_NEON cfg = 0).
Proof.
  destruct cfg as [s4 s3 s2 n].
  unfold includes_pmmintrin, quaternion_backend, simd_types, pp_true. cbn.
  destruct (Z.eqb_spec s4 0), (Z.eqb_spec s3 0), (Z.eqb_spec s2 0), (Z.eqb_spec n 0);
    cbn; intuition congruence.
Qed.

End DispatchFacts.
